(** * sse_server: a shallow embedding of [server.py]

    The server registers two tools, [run_command] and [hello_world], on a
    FastMCP instance and serves them over an SSE transport.  This file
    embeds what [server.py] itself computes:

    - the module start-up (workspace path, log directory, [os.makedirs]),
    - the two tool functions,
    - the command-line parser of the [__main__] block.

    Python values are modelled as they are in the source: [str] as
    [string], [int] as [Z], exceptions as a class together with their
    [str()] rendering, the logger as the list of emitted records, the
    operating system as an oracle answering [subprocess.run].  The
    library functions the source calls ([posixpath], [os.makedirs],
    [argparse], [int]) follow CPython 3.11 on POSIX. *)

From Stdlib Require Import String Ascii List ZArith Bool Lia.
From Stdlib Require Import DecimalString DecimalPos DecimalN DecimalZ.
Import ListNotations.

Local Open Scope string_scope.
Local Open Scope Z_scope.

(** ** Python values used by the server *)

Module Py.

(** The built-in exception classes that matter for [except Exception]. *)
Inductive ExcClass : Type :=
| BaseException
| Exception
| KeyboardInterrupt
| SystemExit
| GeneratorExit
| CancelledError
| OSError
| FileNotFoundError
| FileExistsError
| PermissionError
| NotADirectoryError
| ValueError
| UnicodeError
| UnicodeDecodeError
| TypeError
| MemoryError
| RecursionError
| IsADirectoryError
| SubprocessError.

Definition ExcClass_eqb (c d : ExcClass) : bool :=
  match c, d with
  | BaseException, BaseException
  | Exception, Exception
  | KeyboardInterrupt, KeyboardInterrupt
  | SystemExit, SystemExit
  | GeneratorExit, GeneratorExit
  | CancelledError, CancelledError
  | OSError, OSError
  | FileNotFoundError, FileNotFoundError
  | FileExistsError, FileExistsError
  | PermissionError, PermissionError
  | NotADirectoryError, NotADirectoryError
  | ValueError, ValueError
  | UnicodeError, UnicodeError
  | UnicodeDecodeError, UnicodeDecodeError
  | TypeError, TypeError
  | MemoryError, MemoryError
  | RecursionError, RecursionError
  | IsADirectoryError, IsADirectoryError
  | SubprocessError, SubprocessError => true
  | _, _ => false
  end.

(** The direct base class ([__base__]); [BaseException] is the root. *)
Definition base (c : ExcClass) : option ExcClass :=
  match c with
  | BaseException => None
  | Exception | KeyboardInterrupt | SystemExit
  | GeneratorExit | CancelledError => Some BaseException
  | OSError | ValueError | TypeError
  | MemoryError | SubprocessError => Some Exception
  | RecursionError => Some Exception
  | FileNotFoundError | FileExistsError | IsADirectoryError
  | PermissionError | NotADirectoryError => Some OSError
  | UnicodeError => Some ValueError
  | UnicodeDecodeError => Some UnicodeError
  end.

Fixpoint climbs (fuel : nat) (c d : ExcClass) : bool :=
  ExcClass_eqb c d ||
  match fuel, base c with
  | S fuel', Some b => climbs fuel' b d
  | _, _ => false
  end.

(** [issubclass(c, d)]: the hierarchy above is at most four links deep. *)
Definition issubclass (c d : ExcClass) : bool := climbs 5 c d.

(** A raised exception object: its class and what [str(e)] gives. *)
Record exn : Type := mkExn { exc_class : ExcClass; exc_str : string }.

Definition isinstance (e : exn) (d : ExcClass) : bool :=
  issubclass (exc_class e) d.

Definition str (e : exn) : string := exc_str e.

(** Truthiness of a [str]: only the empty string is falsy. *)
Definition truthy (s : string) : bool :=
  match s with
  | EmptyString => false
  | String _ _ => true
  end.

(** [a or b] on strings. *)
Definition or_ (a b : string) : string := if truthy a then a else b.

(** The classes raised when [subprocess.Popen] cannot start the child:
    [OSError] and its subclasses (missing shell or working directory,
    permissions), [ValueError] (invalid arguments, embedded null byte)
    and [subprocess.SubprocessError]. *)
Definition launch_error (c : ExcClass) : bool :=
  issubclass c OSError || issubclass c ValueError || issubclass c SubprocessError.

End Py.

(** ** Effects: logging, spawned processes, exceptions *)

(** The result of running a piece of Python: a value or a raised exception. *)
Inductive outcome (A : Type) : Type :=
| Return (a : A)
| Raise (e : Py.exn).

Arguments Return {A} a.
Arguments Raise {A} e.

Module Logging.

Definition DEBUG : Z := 10.
Definition INFO : Z := 20.
Definition WARNING : Z := 30.
Definition ERROR : Z := 40.

(** An argument of a [%s] placeholder. *)
Inductive arg : Type :=
| ArgStr (s : string)
| ArgInt (z : Z).

(** A [LogRecord]: level, format string, arguments, and the exception
    attached by [logger.exception]. *)
Record LogRecord : Type := mkRecord {
  levelno : Z;
  msg : string;
  args : list arg;
  exc_info : option Py.exn
}.

(** [logging.basicConfig(level=logging.INFO, ..., force=True)]: the
    logger obtained by [logging.getLogger(LOG_FILE)] has no level of its
    own and inherits the root level. *)
Definition effective_level : Z := INFO.

Definition isEnabledFor (level : Z) : bool := effective_level <=? level.

End Logging.

Import Logging.

(** The arguments [run_command] passes to [subprocess.run]. *)
Record RunArgs : Type := mkRunArgs {
  run_args : string;
  run_shell : bool;
  run_cwd : string;
  run_capture_output : bool;
  run_text : bool
}.

(** [subprocess.CompletedProcess] with [capture_output=True, text=True]. *)
Record CompletedProcess : Type := mkCompleted {
  returncode : Z;
  stdout : string;
  stderr : string
}.

(** What the process has done so far that an observer can see: the records
    handed to the log handlers and the child processes it asked for. *)
Record World : Type := mkWorld {
  log : list LogRecord;
  spawned : list RunArgs
}.

(** Python code as a state transformer that may raise. *)
Definition ST (S A : Type) : Type := S -> outcome A * S.

Definition ret {S A} (a : A) : ST S A := fun s => (Return a, s).

Definition raise {S A} (e : Py.exn) : ST S A := fun s => (Raise e, s).

Definition bind {S A B} (m : ST S A) (k : A -> ST S B) : ST S B :=
  fun s =>
    match m s with
    | (Return a, s') => k a s'
    | (Raise e, s') => (Raise e, s')
    end.

(** The tool functions only touch the log and the process table. *)
Definition M (A : Type) : Type := ST World A.

Notation "x <- m ;; k" := (bind m (fun x => k))
  (at level 61, m at next level, right associativity).
Notation "m ;; k" := (bind m (fun _ => k))
  (at level 61, right associativity).

(** [try: body  except cls as e: handler e]: an exception that is not an
    instance of [cls] is not caught and keeps propagating. *)
Definition try_except {S A} (body : ST S A) (cls : Py.ExcClass)
  (handler : Py.exn -> ST S A) : ST S A :=
  fun s =>
    match body s with
    | (Return a, s') => (Return a, s')
    | (Raise e, s') =>
        if Py.isinstance e cls then handler e s' else (Raise e, s')
    end.

(** [Logger._log] behind the level check: the record reaches the two
    handlers (file and stream) or is dropped. *)
Definition emit (r : LogRecord) : M unit :=
  fun w =>
    if isEnabledFor (levelno r)
    then (Return tt, mkWorld (log w ++ [r]) (spawned w))
    else (Return tt, w).

Definition logger_debug (fmt : string) (a : list arg) : M unit :=
  emit (mkRecord DEBUG fmt a None).

Definition logger_info (fmt : string) (a : list arg) : M unit :=
  emit (mkRecord INFO fmt a None).

Definition logger_warning (fmt : string) (a : list arg) : M unit :=
  emit (mkRecord WARNING fmt a None).

(** [logger.exception(msg)] inside a handler: level ERROR with the
    exception being handled attached. *)
Definition logger_exception (fmt : string) (e : Py.exn) : M unit :=
  emit (mkRecord ERROR fmt [] (Some e)).

Definition when {S} (b : bool) (m : ST S unit) : ST S unit :=
  if b then m else ret tt.

Definition nl : string := String (ascii_of_nat 10) EmptyString.

(** ** The two tools *)

Section Tools.

(** The operating system: what [subprocess.run] does with its arguments,
    a completed process or an exception. *)
Variable os : RunArgs -> outcome CompletedProcess.

(** The module-level constant computed at start-up. *)
Variable DEFAULT_WORKSPACE : string.

Definition subprocess_run (a : RunArgs) : M CompletedProcess :=
  fun w => (os a, mkWorld (log w) (spawned w ++ [a])).

(** The call made on lines 59-65. *)
Definition run_call (command : string) : RunArgs :=
  {| run_args := command;
     run_shell := true;
     run_cwd := DEFAULT_WORKSPACE;
     run_capture_output := true;
     run_text := true |}.

Definition run_command (command : string) : M string :=
  logger_info "Received command: %s" [ArgStr command] ;;
  logger_debug "Executing in workspace: %s" [ArgStr DEFAULT_WORKSPACE] ;;
  try_except
    (result <- subprocess_run (run_call command) ;;
     logger_info "Command finished | returncode=%s" [ArgInt (returncode result)] ;;
     when (Py.truthy (stdout result))
          (logger_debug ("STDOUT:" ++ nl ++ "%s") [ArgStr (stdout result)]) ;;
     when (Py.truthy (stderr result))
          (logger_warning ("STDERR:" ++ nl ++ "%s") [ArgStr (stderr result)]) ;;
     ret (Py.or_ (Py.or_ (stdout result) (stderr result)) ""))
    Py.Exception
    (fun e =>
       logger_exception "Command execution failed" e ;;
       ret (Py.str e)).

Definition hello_world : M string :=
  logger_info "hello_world tool invoked" [] ;;
  ret "Hello World".

End Tools.

(** [hello_world] as FastMCP calls it: the decorator binds the declared
    parameters of the function from the argument mapping of the request;
    [hello_world] declares none, so nothing of the mapping reaches it. *)
Definition hello_world_tool (arguments : list (string * string)) : M string :=
  hello_world.

(** ** [posixpath] *)

Module Path.

Definition is_sep (c : ascii) : bool := Ascii.eqb c "/"%char.

Definition nonempty (s : string) : bool := Py.truthy s.

(** [os.path.isabs]. *)
Definition isabs (s : string) : bool :=
  match s with
  | String c _ => is_sep c
  | EmptyString => false
  end.

Fixpoint endswith_sep (s : string) : bool :=
  match s with
  | EmptyString => false
  | String c EmptyString => is_sep c
  | String _ r => endswith_sep r
  end.

(** ['/' in s]. *)
Fixpoint has_sep (s : string) : bool :=
  match s with
  | EmptyString => false
  | String c r => is_sep c || has_sep r
  end.

(** [s.rstrip('/')]. *)
Fixpoint rstrip_sep (s : string) : string :=
  match s with
  | EmptyString => EmptyString
  | String c r =>
      match rstrip_sep r with
      | EmptyString => if is_sep c then EmptyString else String c EmptyString
      | r' => String c r'
      end
  end.

(** [s.split('/')]. *)
Fixpoint split_sep (s : string) : list string :=
  match s with
  | EmptyString => [EmptyString]
  | String c r =>
      if is_sep c then EmptyString :: split_sep r
      else match split_sep r with
           | h :: t => String c h :: t
           | [] => [String c EmptyString]
           end
  end.

(** ['/'.join(comps)]. *)
Fixpoint join_sep (comps : list string) : string :=
  match comps with
  | [] => EmptyString
  | [c] => c
  | c :: rest => c ++ "/" ++ join_sep rest
  end.

(** [(s[:i], s[i:])] for [i = s.rfind('/') + 1]. *)
Fixpoint rsplit_sep (s : string) : string * string :=
  match s with
  | EmptyString => (EmptyString, EmptyString)
  | String c r =>
      match rsplit_sep r with
      | (EmptyString, t) =>
          if is_sep c then (String c EmptyString, t) else (EmptyString, String c t)
      | (h, t) => (String c h, t)
      end
  end.

(** [(s[:i], s[i:])] for [i] the index of the first ['/'], or [len(s)]. *)
Fixpoint break_sep (s : string) : string * string :=
  match s with
  | EmptyString => (EmptyString, EmptyString)
  | String c r =>
      if is_sep c then (EmptyString, s)
      else let (u, rest) := break_sep r in (String c u, rest)
  end.

(** [os.path.join(a, b)]. *)
Definition join (a b : string) : string :=
  if isabs b then b
  else if negb (nonempty a) || endswith_sep a then a ++ b
  else a ++ "/" ++ b.

(** [os.path.split(p)]: the head loses its trailing slashes unless it
    consists of slashes only. *)
Definition split (p : string) : string * string :=
  let (head, tail) := rsplit_sep p in
  (if nonempty head && nonempty (rstrip_sep head) then rstrip_sep head else head,
   tail).

(** POSIX allows one or two initial slashes and treats three or more as
    a single one. *)
Definition initial_slashes (path : string) : nat :=
  if isabs path then
    if prefix "//" path && negb (prefix "///" path) then 2%nat else 1%nat
  else 0%nat.

Definition last_is_dotdot (comps : list string) : bool :=
  match rev comps with
  | c :: _ => String.eqb c ".."
  | [] => false
  end.

(** One iteration of the loop of [normpath] over the components. *)
Definition normpath_step (initial : nat) (new_comps : list string) (comp : string)
  : list string :=
  if String.eqb comp "" || String.eqb comp "." then new_comps
  else if negb (String.eqb comp "..")
          || (Nat.eqb initial 0 && match new_comps with [] => true | _ => false end)
          || last_is_dotdot new_comps
       then (new_comps ++ [comp])%list
       else removelast new_comps.

Fixpoint slashes (n : nat) : string :=
  match n with
  | O => EmptyString
  | S n' => String "/"%char (slashes n')
  end.

(** [os.path.normpath]. *)
Definition normpath (path : string) : string :=
  if negb (nonempty path) then "."
  else
    let initial := initial_slashes path in
    let comps := fold_left (normpath_step initial) (split_sep path) [] in
    let p := slashes initial ++ join_sep comps in
    if nonempty p then p else ".".

End Path.

(** ** The process environment and the file system at start-up *)

Record Env : Type := mkEnv {
  environ_HOME : option string;       (* [os.environ.get('HOME')] *)
  pw_dir : option string;             (* [pwd.getpwuid(os.getuid()).pw_dir] *)
  pw_nam : string -> option string;   (* [pwd.getpwnam(name).pw_dir] *)
  getcwd : string                     (* [os.getcwd()] *)
}.

(** [os.path.expanduser]. *)
Definition expanduser (env : Env) (path : string) : string :=
  match path with
  | String "~"%char rest =>
      let (name, remainder) := Path.break_sep rest in
      let userhome :=
        if Path.nonempty name then pw_nam env name
        else match environ_HOME env with
             | Some h => Some h
             | None => pw_dir env
             end in
      match userhome with
      | None => path
      | Some h =>
          let r := Path.rstrip_sep h ++ remainder in
          if Path.nonempty r then r else "/"
      end
  | _ => path
  end.

(** [os.path.abspath]. *)
Definition abspath (env : Env) (path : string) : string :=
  Path.normpath (if Path.isabs path then path else Path.join (getcwd env) path).

Inductive node : Type := Dir | File.

(** A file-system location: the names from the root down. *)
Definition location : Type := list string.

Fixpoint location_eqb (p q : location) : bool :=
  match p, q with
  | [], [] => true
  | a :: p', b :: q' => String.eqb a b && location_eqb p' q'
  | _, _ => false
  end.

(** The directory tree: the entries that exist besides the root, newest
    first. *)
Definition FS : Type := list (location * node).

Fixpoint assoc (fs : FS) (p : location) : option node :=
  match fs with
  | [] => None
  | (q, n) :: rest => if location_eqb p q then Some n else assoc rest p
  end.

Definition lookup (fs : FS) (p : location) : option node :=
  match p with
  | [] => Some Dir
  | _ => assoc fs p
  end.

Definition resolve_step (acc : location) (comp : string) : location :=
  if String.eqb comp "" || String.eqb comp "." then acc
  else if String.eqb comp ".." then removelast acc
  else (acc ++ [comp])%list.

(** The location a path names for a process whose working directory is
    [cwd].  Symbolic links are not modelled, so dot-dot is lexical. *)
Definition resolve (cwd path : string) : location :=
  fold_left resolve_step
    (Path.split_sep (if Path.isabs path then path else cwd ++ "/" ++ path)) [].

(** The machine during start-up: its directory tree and the state of the
    Python process. *)
Record Machine : Type := mkMachine {
  fs : FS;
  proc : World
}.

Definition Boot (A : Type) : Type := ST Machine A.

Definition lift {A} (m : M A) : Boot A :=
  fun s => let (r, w) := m (proc s) in (r, mkMachine (fs s) w).

Definition OSError_ (c : Py.ExcClass) (path : string) : Py.exn :=
  Py.mkExn c path.

Section Startup.

Variable env : Env.

Definition path_exists (path : string) : Boot bool :=
  fun s => (Return (match lookup (fs s) (resolve (getcwd env) path) with
                    | Some _ => true
                    | None => false
                    end), s).

Definition path_isdir (path : string) : Boot bool :=
  fun s => (Return (match lookup (fs s) (resolve (getcwd env) path) with
                    | Some Dir => true
                    | _ => false
                    end), s).

(** [os.mkdir(path)]. *)
Definition mkdir (path : string) : Boot unit :=
  fun s =>
    let p := resolve (getcwd env) path in
    match lookup (fs s) p with
    | Some _ => (Raise (OSError_ Py.FileExistsError path), s)
    | None =>
        match lookup (fs s) (removelast p) with
        | Some Dir => (Return tt, mkMachine ((p, Dir) :: fs s) (proc s))
        | Some File => (Raise (OSError_ Py.NotADirectoryError path), s)
        | None => (Raise (OSError_ Py.FileNotFoundError path), s)
        end
    end.

(** [open(path, 'a')], as [logging.FileHandler] does on construction. *)
Definition open_append (path : string) : Boot unit :=
  fun s =>
    let p := resolve (getcwd env) path in
    match lookup (fs s) p with
    | Some Dir => (Raise (OSError_ Py.IsADirectoryError path), s)
    | Some File => (Return tt, s)
    | None =>
        match lookup (fs s) (removelast p) with
        | Some Dir => (Return tt, mkMachine ((p, File) :: fs s) (proc s))
        | Some File => (Raise (OSError_ Py.NotADirectoryError path), s)
        | None => (Raise (OSError_ Py.FileNotFoundError path), s)
        end
    end.

(** The [(head, tail)] that [os.makedirs] works with: the path is split
    again when it ends in a slash. *)
Definition makedirs_split (name : string) : string * string :=
  let (head, tail) := Path.split name in
  if Path.nonempty tail then (head, tail) else Path.split head.

(** [os.makedirs(name, exist_ok=exist_ok)].  The recursion is on the head
    of the path, which is shorter than the path; [fuel] bounds its depth
    the way the interpreter's recursion limit does. *)
Fixpoint makedirs_fuel (fuel : nat) (name : string) (exist_ok : bool) : Boot unit :=
  match fuel with
  | O => raise (Py.mkExn Py.RecursionError "maximum recursion depth exceeded")
  | S fuel' =>
      let (head, tail) := makedirs_split name in
      done <-
        (if Path.nonempty head && Path.nonempty tail then
           present <- path_exists head ;;
           if negb present then
             try_except (makedirs_fuel fuel' head exist_ok)
                        Py.FileExistsError (fun _ => ret tt) ;;
             ret (String.eqb tail ".")
           else ret false
         else ret false) ;;
      if (done : bool) then ret tt
      else
        try_except (mkdir name) Py.OSError
          (fun e =>
             isdir <- path_isdir name ;;
             if negb exist_ok || negb isdir then raise e else ret tt)
  end.

Definition makedirs (name : string) (exist_ok : bool) : Boot unit :=
  makedirs_fuel (S (String.length name)) name exist_ok.

(** The module-level constants. *)
Record Config : Type := mkConfig {
  DEFAULT_WORKSPACE : string;
  LOG_DIR : string;
  LOG_FILE : string
}.

(** Lines 22-48: everything the module does when it is imported, before
    any tool is registered. *)
Definition startup : Boot Config :=
  let DEFAULT_WORKSPACE := abspath env (expanduser env "~/mcp") in
  let LOG_DIR := Path.join DEFAULT_WORKSPACE "logs" in
  makedirs LOG_DIR true ;;
  let LOG_FILE := Path.join LOG_DIR "mcp_terminal.log" in
  open_append LOG_FILE ;;
  lift (logger_info "MCP Terminal starting" []) ;;
  lift (logger_info "Default workspace set to: %s" [ArgStr DEFAULT_WORKSPACE]) ;;
  makedirs DEFAULT_WORKSPACE true ;;
  ret (mkConfig DEFAULT_WORKSPACE LOG_DIR LOG_FILE).

End Startup.

(** An example machine: a home directory and nothing else. *)
Definition example_env : Env :=
  {| environ_HOME := Some "/home/agni";
     pw_dir := Some "/home/agni";
     pw_nam := fun _ => None;
     getcwd := "/srv/app" |}.

Definition example_fs : FS :=
  [ (["home"], Dir); (["home"; "agni"], Dir); (["srv"], Dir); (["srv"; "app"], Dir) ].

Definition empty_world : World := mkWorld [] [].

Definition example_machine : Machine := mkMachine example_fs empty_world.

(** ** The command line *)

Module Argparse.

(** [int(s)] on an ASCII string: surrounding white space, an optional
    sign, decimal digits with single underscores between them. *)
Definition is_space (c : ascii) : bool :=
  let n := nat_of_ascii c in
  ((9 <=? n)%nat && (n <=? 13)%nat) || (n =? 32)%nat.

Fixpoint lstrip (s : string) : string :=
  match s with
  | EmptyString => EmptyString
  | String c r => if is_space c then lstrip r else s
  end.

Fixpoint rstrip (s : string) : string :=
  match s with
  | EmptyString => EmptyString
  | String c r =>
      match rstrip r with
      | EmptyString => if is_space c then EmptyString else String c EmptyString
      | r' => String c r'
      end
  end.

Definition digit_value (c : ascii) : option Z :=
  let n := nat_of_ascii c in
  if ((48 <=? n)%nat && (n <=? 57)%nat) then Some (Z.of_nat n - 48) else None.

Inductive seen : Type := Nothing | ADigit | AnUnderscore.

Fixpoint digits (acc : Z) (p : seen) (s : string) : option Z :=
  match s with
  | EmptyString => match p with ADigit => Some acc | _ => None end
  | String c r =>
      match digit_value c with
      | Some d => digits (10 * acc + d) ADigit r
      | None =>
          if Ascii.eqb c "_"%char
          then match p with ADigit => digits acc AnUnderscore r | _ => None end
          else None
      end
  end.

Definition int (s : string) : option Z :=
  match lstrip (rstrip s) with
  | String "-"%char r => option_map Z.opp (digits 0 Nothing r)
  | String "+"%char r => digits 0 Nothing r
  | t => digits 0 Nothing t
  end.

(** The result of [parser.parse_args()]. *)
Record Namespace : Type := mkNamespace { host : string; port : Z }.

Inductive dest : Type := Help | Host | Port.

(** The option strings of the parser in registration order: the help
    option that [ArgumentParser] adds, then lines 147 and 148. *)
Definition option_strings : list (string * dest) :=
  [ ("-h", Help); ("--help", Help); ("--host", Host); ("--port", Port) ].

Definition defaults : Namespace := {| host := "0.0.0.0"; port := 8081 |}.

Fixpoint find_option (l : list (string * dest)) (s : string) : option dest :=
  match l with
  | [] => None
  | (o, d) :: rest => if String.eqb o s then Some d else find_option rest s
  end.

Fixpoint contains (c : ascii) (s : string) : bool :=
  match s with
  | EmptyString => false
  | String a r => Ascii.eqb a c || contains c r
  end.

(** [s.split(c, 1)] for a string that contains [c]. *)
Fixpoint split_first (c : ascii) (s : string) : string * string :=
  match s with
  | EmptyString => (EmptyString, EmptyString)
  | String a r =>
      if Ascii.eqb a c then (EmptyString, r)
      else let (x, y) := split_first c r in (String a x, y)
  end.

Definition is_digit (c : ascii) : bool :=
  match digit_value c with Some _ => true | None => false end.

Fixpoint all_digits (s : string) : bool :=
  match s with
  | EmptyString => true
  | String c r => is_digit c && all_digits r
  end.

(** The matcher ['^-\d+$|^-\d*\.\d+$']. *)
Definition negative_number (s : string) : bool :=
  match s with
  | String "-"%char r =>
      (Py.truthy r && all_digits r) ||
      (contains "."%char r &&
       let (a, b) := split_first "."%char r in
       all_digits a && Py.truthy b && all_digits b)
  | _ => false
  end.

Inductive token : Type :=
| Positional
| Marker
| Optional (d : option dest) (option_string : string) (explicit_arg : option string)
| Ambiguous.

(** [_get_option_tuples]. *)
Definition get_option_tuples (arg : string) : list token :=
  match arg with
  | String "-"%char (String "-"%char _) =>
      let (option_prefix, explicit_arg) :=
        if contains "="%char arg
        then let (p, e) := split_first "="%char arg in (p, Some e)
        else (arg, None) in
      flat_map (fun od : string * dest =>
                  if prefix option_prefix (fst od)
                  then [Optional (Some (snd od)) (fst od) explicit_arg] else [])
               option_strings
  | String "-"%char (String c rest) =>
      let short_option_prefix := String "-"%char (String c EmptyString) in
      flat_map (fun od : string * dest =>
                  if String.eqb (fst od) short_option_prefix
                  then [Optional (Some (snd od)) (fst od) (Some rest)]
                  else if prefix arg (fst od)
                  then [Optional (Some (snd od)) (fst od) None] else [])
               option_strings
  | _ => []
  end.

(** [_parse_optional]: is the argument an option string or a value? *)
Definition parse_optional (arg : string) : token :=
  match arg with
  | EmptyString => Positional
  | String c rest =>
      if negb (Ascii.eqb c "-"%char) then Positional
      else
        match find_option option_strings arg with
        | Some d => Optional (Some d) arg None
        | None =>
            match rest with
            | EmptyString => Positional
            | _ =>
                let with_equals :=
                  if contains "="%char arg then
                    let (o, e) := split_first "="%char arg in
                    match find_option option_strings o with
                    | Some d => Some (Optional (Some d) o (Some e))
                    | None => None
                    end
                  else None in
                match with_equals with
                | Some t => t
                | None =>
                    match get_option_tuples arg with
                    | [t] => t
                    | _ :: _ :: _ => Ambiguous
                    | [] =>
                        if negative_number arg then Positional
                        else if contains " "%char arg then Positional
                        else Optional None arg None
                    end
                end
            end
        end
  end.

(** Everything after the first ["--"] is a value. *)
Fixpoint classify (after_marker : bool) (argv : list string) : list (token * string) :=
  match argv with
  | [] => []
  | a :: rest =>
      if after_marker then (Positional, a) :: classify true rest
      else if String.eqb a "--" then (Marker, a) :: classify true rest
      else (parse_optional a, a) :: classify false rest
  end.

Inductive result : Type :=
| Parsed (ns : Namespace)
| Exited (code : Z).

(** The [store] action with the [type] of the option applied. *)
Definition store (d : dest) (value : string) (ns : Namespace) : option Namespace :=
  match d with
  | Host => Some {| host := value; port := port ns |}
  | Port => match int value with
            | Some n => Some {| host := host ns; port := n |}
            | None => None
            end
  | Help => None
  end.

Fixpoint all_h (s : string) : bool :=
  match s with
  | EmptyString => true
  | String c r => Ascii.eqb c "h"%char && all_h r
  end.

Definition single_dash (option_string : string) : bool :=
  match option_string with
  | String _ (String c _) => negb (Ascii.eqb c "-"%char)
  | _ => false
  end.

(** The consuming loop of [_parse_known_args].  The parser has no
    positional arguments, so every value that is not taken by an option
    is left over, and [parse_args] exits with status 2 on left-overs.
    The help action exits with status 0 as soon as it is reached. *)
Fixpoint consume (ts : list (token * string)) (ns : Namespace) (extras : bool) : result :=
  match ts with
  | [] => if extras then Exited 2 else Parsed ns
  | (Positional, _) :: rest => consume rest ns true
  | (Marker, _) :: rest => consume rest ns true
  | (Ambiguous, _) :: _ => Exited 2
  | (Optional None _ _, _) :: rest => consume rest ns true
  | (Optional (Some Help) o None, _) :: _ => Exited 0
  | (Optional (Some Help) o (Some e), _) :: _ =>
      if single_dash o && Py.truthy e && all_h e then Exited 0 else Exited 2
  | (Optional (Some d) _ (Some v), _) :: rest =>
      match store d v ns with
      | Some ns' => consume rest ns' extras
      | None => Exited 2
      end
  | (Optional (Some d) _ None, _) :: rest =>
      match rest with
      | (Positional, v) :: rest' =>
          match store d v ns with
          | Some ns' => consume rest' ns' extras
          | None => Exited 2
          end
      | _ => Exited 2
      end
  end.

Definition is_ambiguous (t : token * string) : bool :=
  match fst t with Ambiguous => true | _ => false end.

(** [parser.parse_args(argv)]: an ambiguous abbreviation is reported
    while the arguments are classified, before any action runs. *)
Definition parse_args (argv : list string) : result :=
  let ts := classify false argv in
  if existsb is_ambiguous ts then Exited 2 else consume ts defaults false.

End Argparse.

(** The address handed to [uvicorn.run] on line 155, when the parser did
    not exit. *)
Definition main (argv : list string) : option (string * Z) :=
  match Argparse.parse_args argv with
  | Argparse.Parsed args => Some (Argparse.host args, Argparse.port args)
  | Argparse.Exited _ => None
  end.


(** ** Example runs of the operating system *)

Definition example_workspace : string := "/home/agni/mcp".

(** [ls notes.txt missing.txt] : output on both streams, exit status 2. *)
Definition ls_both : CompletedProcess :=
  {| returncode := 2;
     stdout := "notes.txt" ++ nl;
     stderr := "ls: cannot access 'missing.txt': No such file or directory" ++ nl |}.

(** The same streams from a process that exits with status 0. *)
Definition ls_both_zero : CompletedProcess :=
  {| returncode := 0; stdout := stdout ls_both; stderr := stderr ls_both |}.

Definition os_completes (cp : CompletedProcess) : RunArgs -> outcome CompletedProcess :=
  fun _ => Return cp.

Definition os_raises (e : Py.exn) : RunArgs -> outcome CompletedProcess :=
  fun _ => Raise e.

(** The working directory has been removed: [Popen] raises. *)
Definition no_workspace : Py.exn :=
  Py.mkExn Py.FileNotFoundError
    "[Errno 2] No such file or directory: '/home/agni/mcp'".


(** The records [run_command] writes. *)
Definition received (command : string) : LogRecord :=
  mkRecord INFO "Received command: %s" [ArgStr command] None.

Definition finished (rc : Z) : LogRecord :=
  mkRecord INFO "Command finished | returncode=%s" [ArgInt rc] None.

Definition stderr_warning (err : string) : LogRecord :=
  mkRecord WARNING ("STDERR:" ++ nl ++ "%s") [ArgStr err] None.

Definition failure (e : Py.exn) : LogRecord :=
  mkRecord ERROR "Command execution failed" [] (Some e).


(** A path component as [normpath] leaves it: no separator inside, and
    neither empty nor a single dot. *)
Definition component (c : string) : Prop :=
  Path.has_sep c = false /\ c <> "" /\ c <> ".".

(** The records the start-up writes. *)
Definition starting : LogRecord :=
  mkRecord INFO "MCP Terminal starting" [] None.

Definition workspace_set (ws : string) : LogRecord :=
  mkRecord INFO "Default workspace set to: %s" [ArgStr ws] None.

(** [m'] has every entry of [m], with the same kind. *)
Definition keeps_entries (m m' : Machine) : Prop :=
  forall p n, lookup (fs m) p = Some n -> lookup (fs m') p = Some n.

(** [m'] differs from [m] by new entries of the tree only. *)
Definition only_adds (m m' : Machine) : Prop :=
  keeps_entries m m' /\ proc m' = proc m.

(** Every run of [c], however it ends, takes a state to a state related
    by [R]. *)
Definition respects {S A} (R : S -> S -> Prop) (c : ST S A) : Prop :=
  forall s r s', c s = (r, s') -> R s s'.

(** A machine where a regular file sits at the place of the workspace. *)
Definition machine_with_file : Machine :=
  mkMachine [ (["home"], Dir); (["home"; "agni"], Dir);
              (["home"; "agni"; "mcp"], File) ] empty_world.

(** The same home directory seen from another working directory. *)
Definition other_cwd_env : Env :=
  {| environ_HOME := Some "/home/agni";
     pw_dir := None;
     pw_nam := fun _ => None;
     getcwd := "/" |}.

(** * Properties *)

(** ** [run_command] *)

(** The fuel of [issubclass] reaches the root from every class. *)
Lemma issubclass_BaseException (c : Py.ExcClass) :
  Py.issubclass c Py.BaseException = true.
Proof. destruct c; reflexivity. Qed.

(** Every launch error is caught by [except Exception]. *)
Lemma launch_error_isinstance_Exception (c : Py.ExcClass) :
  Py.launch_error c = true -> Py.issubclass c Py.Exception = true.
Proof. destruct c; vm_compute; congruence. Qed.

Lemma or_nonempty (a b : string) : a <> "" -> Py.or_ a b = a.
Proof. destruct a; [congruence | reflexivity]. Qed.

Lemma or_empty_r (a : string) : Py.or_ a "" = a.
Proof. destruct a; reflexivity. Qed.

(** What a run does when the child process completes. *)
Lemma run_command_completed os ws command w cp :
  os (run_call ws command) = Return cp ->
  run_command os ws command w =
  (Return (Py.or_ (stdout cp) (stderr cp)),
   mkWorld (((log w ++ [received command]) ++ [finished (returncode cp)])
            ++ (if Py.truthy (stderr cp) then [stderr_warning (stderr cp)] else []))
           (spawned w ++ [run_call ws command])).
Proof.
  intros Hos.
  unfold run_command, bind, try_except, subprocess_run, logger_info,
    logger_debug, logger_warning, when, emit, ret; simpl.
  rewrite Hos; simpl.
  rewrite or_empty_r.
  destruct (stdout cp), (stderr cp); simpl; rewrite ?app_nil_r; reflexivity.
Qed.

(** What a run does when [subprocess.run] raises. *)
Lemma run_command_raised os ws command w e :
  os (run_call ws command) = Raise e ->
  run_command os ws command w =
  if Py.isinstance e Py.Exception
  then (Return (Py.str e),
        mkWorld ((log w ++ [received command]) ++ [failure e])
                (spawned w ++ [run_call ws command]))
  else (Raise e,
        mkWorld (log w ++ [received command]) (spawned w ++ [run_call ws command])).
Proof.
  intros Hos.
  unfold run_command, bind, try_except, subprocess_run, logger_info,
    logger_debug, logger_exception, emit, ret; simpl.
  rewrite Hos; simpl.
  destruct (Py.isinstance e Py.Exception); reflexivity.
Qed.

(** C1.  When the child process completes, [run_command] returns its
    standard output if that is non-empty, otherwise its standard error if
    that is non-empty, otherwise the empty string.  When both streams are
    non-empty the result is exactly the standard output, and the standard
    error goes to the log as a warning. *)
Theorem run_command_result os ws command w cp :
  os (run_call ws command) = Return cp ->
  let r := run_command os ws command w in
  (stdout cp <> "" -> fst r = Return (stdout cp)) /\
  (stdout cp = "" -> stderr cp <> "" -> fst r = Return (stderr cp)) /\
  (stdout cp = "" -> stderr cp = "" -> fst r = Return "") /\
  (stderr cp <> "" -> In (stderr_warning (stderr cp)) (log (snd r))).
Proof.
  intros Hos r; subst r.
  rewrite (run_command_completed os ws command w cp Hos); simpl.
  repeat split.
  - intros Hout. now rewrite or_nonempty.
  - intros Hout _. now rewrite Hout.
  - intros Hout Herr. now rewrite Hout, Herr.
  - intros Herr. apply in_or_app; right.
    destruct (stderr cp); [congruence | now left].
Qed.

Lemma run_command_result_witness :
  os_completes ls_both (run_call example_workspace "ls notes.txt missing.txt")
    = Return ls_both /\
  fst (run_command (os_completes ls_both) example_workspace
         "ls notes.txt missing.txt" empty_world)
    = Return ("notes.txt" ++ nl).
Proof.
  split; [reflexivity |].
  apply (proj1 (run_command_result (os_completes ls_both) example_workspace
                  "ls notes.txt missing.txt" empty_world ls_both eq_refl)).
  discriminate.
Defined.

(** C2.  When the process launch fails, that is [subprocess.run] raises
    one of the launch errors ([OSError] and its subclasses, [ValueError],
    [SubprocessError]), [run_command] catches the exception, logs it with
    [logger.exception] and returns [str(e)]; nothing is raised to the
    caller. *)
Theorem run_command_spawn_failure os ws command w e :
  os (run_call ws command) = Raise e ->
  Py.launch_error (Py.exc_class e) = true ->
  let r := run_command os ws command w in
  fst r = Return (Py.str e) /\
  In (failure e) (log (snd r)).
Proof.
  intros Hos Hlaunch r; subst r.
  rewrite (run_command_raised os ws command w e Hos).
  unfold Py.isinstance.
  rewrite (launch_error_isinstance_Exception _ Hlaunch); simpl.
  split; [reflexivity |].
  apply in_or_app; right; now left.
Qed.

Lemma run_command_spawn_failure_witness :
  os_raises no_workspace (run_call example_workspace "ls") = Raise no_workspace /\
  Py.launch_error (Py.exc_class no_workspace) = true /\
  fst (run_command (os_raises no_workspace) example_workspace "ls" empty_world)
    = Return "[Errno 2] No such file or directory: '/home/agni/mcp'".
Proof.
  split; [reflexivity | split; [reflexivity |]].
  apply (proj1 (run_command_spawn_failure (os_raises no_workspace)
                  example_workspace "ls" empty_world
                  no_workspace eq_refl eq_refl)).
Defined.

(** C3.  The value [run_command] returns does not depend on the exit
    status of the child: two completed runs with the same standard
    output and the same standard error return the same value, whatever
    their return codes; the return code only appears in the log. *)
Theorem run_command_ignores_returncode os1 os2 ws command w1 w2 cp1 cp2 :
  os1 (run_call ws command) = Return cp1 ->
  os2 (run_call ws command) = Return cp2 ->
  stdout cp1 = stdout cp2 ->
  stderr cp1 = stderr cp2 ->
  fst (run_command os1 ws command w1) = fst (run_command os2 ws command w2) /\
  In (finished (returncode cp1)) (log (snd (run_command os1 ws command w1))) /\
  In (finished (returncode cp2)) (log (snd (run_command os2 ws command w2))).
Proof.
  intros H1 H2 Hout Herr.
  rewrite (run_command_completed os1 ws command w1 cp1 H1).
  rewrite (run_command_completed os2 ws command w2 cp2 H2); simpl.
  rewrite Hout, Herr.
  repeat split; apply in_or_app; left; apply in_or_app; right; now left.
Qed.

Lemma run_command_ignores_returncode_witness :
  returncode ls_both <> returncode ls_both_zero /\
  fst (run_command (os_completes ls_both) example_workspace "ls *" empty_world)
  = fst (run_command (os_completes ls_both_zero) example_workspace "ls *" empty_world).
Proof.
  split; [discriminate |].
  apply (proj1 (run_command_ignores_returncode
                  (os_completes ls_both) (os_completes ls_both_zero)
                  example_workspace "ls *" empty_world empty_world
                  ls_both ls_both_zero
                  eq_refl eq_refl eq_refl eq_refl)).
Defined.

(** C4.  [hello_world] returns exactly ["Hello World"], in every state
    and whatever argument mapping the invocation carries. *)
Theorem hello_world_returns_Hello_World (arguments : list (string * string)) (w : World) :
  fst (hello_world_tool arguments w) = Return "Hello World" /\
  fst (hello_world w) = Return "Hello World".
Proof. split; reflexivity. Qed.




(** ** Start-up *)

Lemma append_assoc (a b c : string) : (a ++ b) ++ c = a ++ (b ++ c).
Proof. induction a as [| x a IH]; simpl; [reflexivity | now rewrite IH]. Qed.

Lemma isabs_append (a b : string) : Path.isabs a = true -> Path.isabs (a ++ b) = true.
Proof. destruct a; simpl; [discriminate | auto]. Qed.

Lemma isabs_join (a b : string) : Path.isabs a = true -> Path.isabs (Path.join a b) = true.
Proof.
  intros Ha. unfold Path.join.
  destruct (Path.isabs b) eqn:Hb; [exact Hb |].
  destruct (negb (Path.nonempty a) || Path.endswith_sep a); now apply isabs_append.
Qed.

Lemma split_sep_no_sep (s : string) :
  Forall (fun c => Path.has_sep c = false) (Path.split_sep s).
Proof.
  induction s as [| c r IH]; simpl.
  - constructor; [reflexivity | constructor].
  - destruct (Path.is_sep c) eqn:Hc.
    + constructor; [reflexivity | exact IH].
    + destruct (Path.split_sep r) as [| h t]; inversion IH; subst;
        constructor; simpl; try rewrite Hc; auto.
Qed.

Lemma Forall_removelast {A} (P : A -> Prop) (l : list A) :
  Forall P l -> Forall P (removelast l).
Proof.
  induction l as [| a l IH]; simpl; [auto |].
  intros H. inversion H; subst.
  destruct l; [constructor | constructor; auto].
Qed.

Lemma normpath_step_components (initial : nat) (acc : list string) (comp : string) :
  Forall component acc -> Path.has_sep comp = false ->
  Forall component (Path.normpath_step initial acc comp).
Proof.
  intros Hacc Hcomp. unfold Path.normpath_step.
  destruct (String.eqb comp "") eqn:E1; [exact Hacc |].
  destruct (String.eqb comp ".") eqn:E2; [exact Hacc |]. simpl.
  apply String.eqb_neq in E1, E2.
  match goal with |- Forall _ (if ?b then _ else _) => destruct b end.
  - apply Forall_app; split; [exact Hacc |].
    constructor; [repeat split; assumption | constructor].
  - now apply Forall_removelast.
Qed.

Lemma normpath_loop_components (initial : nat) (comps acc : list string) :
  Forall component acc -> Forall (fun c => Path.has_sep c = false) comps ->
  Forall component (fold_left (Path.normpath_step initial) comps acc).
Proof.
  revert acc. induction comps as [| c comps IH]; intros acc Hacc Hcomps; simpl.
  - exact Hacc.
  - inversion Hcomps; subst. apply IH; [| assumption].
    now apply normpath_step_components.
Qed.

(** The shape of [normpath] on an absolute path. *)
Lemma normpath_absolute (q : string) :
  Path.isabs q = true ->
  exists k comps,
    (k = 1%nat \/ k = 2%nat) /\ Forall component comps /\
    Path.normpath q = Path.slashes k ++ Path.join_sep comps.
Proof.
  intros Hq. unfold Path.normpath.
  assert (Hne : Path.nonempty q = true) by (destruct q; [discriminate | reflexivity]).
  rewrite Hne; simpl negb; cbv iota.
  exists (Path.initial_slashes q),
         (fold_left (Path.normpath_step (Path.initial_slashes q)) (Path.split_sep q) []).
  assert (Hk : Path.initial_slashes q = 1%nat \/ Path.initial_slashes q = 2%nat).
  { unfold Path.initial_slashes. rewrite Hq.
    destruct (prefix "//" q && negb (prefix "///" q)); auto. }
  split; [exact Hk |]. split.
  - apply normpath_loop_components; [constructor | apply split_sep_no_sep].
  - destruct Hk as [-> | ->]; reflexivity.
Qed.

Lemma rsplit_sep_no_sep (b : string) :
  Path.has_sep b = false -> Path.rsplit_sep b = ("", b).
Proof.
  induction b as [| c r IH]; simpl; [reflexivity |].
  intros H. apply orb_false_elim in H. destruct H as [Hc Hr].
  now rewrite (IH Hr), Hc.
Qed.

Lemma rsplit_sep_append (a b : string) :
  Path.has_sep b = false -> Path.rsplit_sep (a ++ "/" ++ b) = (a ++ "/", b).
Proof.
  intros Hb. induction a as [| c a IH]; simpl.
  - now rewrite (rsplit_sep_no_sep b Hb).
  - simpl in IH. rewrite IH. destruct a; reflexivity.
Qed.

Lemma join_sep_last (comps : list string) :
  comps <> [] ->
  forall pre, exists a, pre ++ "/" ++ Path.join_sep comps = a ++ "/" ++ last comps "".
Proof.
  induction comps as [| c rest IH]; [congruence |].
  intros _ pre. destruct rest as [| c' rest].
  - exists pre. reflexivity.
  - destruct (IH ltac:(discriminate) (pre ++ "/" ++ c)) as [a Ha].
    exists a.
    change (Path.join_sep (c :: c' :: rest)) with (c ++ "/" ++ Path.join_sep (c' :: rest)).
    change (last (c :: c' :: rest) "") with (last (c' :: rest) "").
    rewrite <- Ha. now rewrite !append_assoc.
Qed.

Lemma last_Forall {A} (P : A -> Prop) (l : list A) (d : A) :
  l <> [] -> Forall P l -> P (last l d).
Proof.
  induction l as [| a l IH]; [congruence |].
  intros _ H. inversion H; subst.
  destruct l; [assumption |]. apply IH; [discriminate | assumption].
Qed.

(** [os.makedirs] never takes its early exit on a normalised absolute
    path: the last component is not a dot. *)
Lemma makedirs_split_normpath (q : string) :
  Path.isabs q = true -> snd (makedirs_split (Path.normpath q)) <> ".".
Proof.
  intros Hq.
  destruct (normpath_absolute q Hq) as (k & comps & Hk & Hcomps & ->).
  destruct comps as [| c rest].
  - destruct Hk as [-> | ->]; vm_compute; discriminate.
  - assert (Hne : c :: rest <> []) by discriminate.
    destruct (last_Forall component (c :: rest) "" Hne Hcomps) as (Hsep & Hnil & Hdot).
    assert (exists a, Path.slashes k ++ Path.join_sep (c :: rest)
                      = a ++ "/" ++ last (c :: rest) "") as [a Ha].
    { destruct Hk as [-> | ->].
      - exact (join_sep_last (c :: rest) Hne "").
      - exact (join_sep_last (c :: rest) Hne "/"). }
    rewrite Ha. unfold makedirs_split, Path.split.
    rewrite (rsplit_sep_append a _ Hsep).
    destruct (last (c :: rest) "") eqn:El; [congruence |].
    exact Hdot.
Qed.

Lemma isabs_normpath (q : string) :
  Path.isabs q = true -> Path.isabs (Path.normpath q) = true.
Proof.
  intros Hq.
  destruct (normpath_absolute q Hq) as (k & comps & Hk & _ & ->).
  destruct Hk as [-> | ->]; reflexivity.
Qed.

Lemma abspath_argument_absolute (env : Env) (path : string) :
  Path.isabs (getcwd env) = true ->
  Path.isabs (if Path.isabs path then path else Path.join (getcwd env) path) = true.
Proof.
  intros Hcwd. destruct (Path.isabs path) eqn:Hp; [exact Hp |].
  now apply isabs_join.
Qed.

Lemma location_eqb_refl (p : location) : location_eqb p p = true.
Proof.
  induction p as [| a p IH]; simpl; [reflexivity |].
  now rewrite String.eqb_refl, IH.
Qed.

Lemma lookup_new_entry (tree : FS) (p : location) :
  lookup ((p, Dir) :: tree) p = Some Dir.
Proof.
  destruct p as [| a p]; [reflexivity |].
  unfold lookup, assoc. now rewrite location_eqb_refl.
Qed.

(** [os.mkdir] either creates the directory or raises an [OSError] and
    leaves the tree as it was. *)
Lemma mkdir_outcome (env : Env) (path : string) (m m' : Machine) (r : outcome unit) :
  mkdir env path m = (r, m') ->
  (r = Return tt /\ lookup (fs m') (resolve (getcwd env) path) = Some Dir) \/
  (exists e, r = Raise e /\ Py.isinstance e Py.OSError = true /\ m' = m).
Proof.
  unfold mkdir.
  destruct (lookup (fs m) (resolve (getcwd env) path)) as [n |].
  - intros H; inversion H; subst. right. eexists. repeat split.
  - destruct (lookup (fs m) (removelast (resolve (getcwd env) path))) as [[|] |];
      intros H; inversion H; subst.
    + left. split; [reflexivity | apply lookup_new_entry].
    + right. eexists. repeat split.
    + right. eexists. repeat split.
Qed.

Lemma bind_Return {S A B} (m : ST S A) (k : A -> ST S B) (s s' : S) (b : B) :
  bind m k s = (Return b, s') ->
  exists a s1, m s = (Return a, s1) /\ k a s1 = (Return b, s').
Proof.
  unfold bind. destruct (m s) as [[a | e] s1]; [eauto | discriminate].
Qed.

(** When [os.makedirs(name, exist_ok=True)] returns, [name] is a
    directory, unless the call left through its early exit for a path
    ending in a dot. *)
Lemma makedirs_fuel_isdir (env : Env) (fuel : nat) (name : string) (m m' : Machine) :
  snd (makedirs_split name) <> "." ->
  makedirs_fuel env fuel name true m = (Return tt, m') ->
  lookup (fs m') (resolve (getcwd env) name) = Some Dir.
Proof.
  intros Htail H. destruct fuel as [| fuel]; [discriminate |].
  cbn [makedirs_fuel] in H.
  destruct (makedirs_split name) as [head tail]. simpl in Htail.
  apply String.eqb_neq in Htail.
  apply bind_Return in H as (done & m1 & Hdone & Hrest).
  assert (done = false) as ->.
  { destruct (Path.nonempty head && Path.nonempty tail);
      [| now inversion Hdone].
    apply bind_Return in Hdone as (present & m2 & _ & Hdone).
    destruct (negb present); [| now inversion Hdone].
    apply bind_Return in Hdone as (u & m3 & _ & Hdone).
    inversion Hdone. congruence. }
  unfold try_except in Hrest.
  destruct (mkdir env name m1) as [r m2] eqn:E.
  destruct (mkdir_outcome env name m1 m2 r E) as [[Hr Hdir] | (e & Hr & Hinst & Hm)];
    subst r.
  - inversion Hrest; subst. exact Hdir.
  - rewrite Hinst in Hrest. subst m2.
    unfold bind, path_isdir, raise, ret in Hrest; simpl in Hrest.
    destruct (lookup (fs m1) (resolve (getcwd env) name)) as [[|] |] eqn:El;
      simpl in Hrest; inversion Hrest; subst; auto.
Qed.

Lemma rstrip_sep_length (s : string) :
  (String.length (Path.rstrip_sep s) <= String.length s)%nat.
Proof.
  induction s as [| c r IH]; simpl; [lia |].
  destruct (Path.rstrip_sep r); [destruct (Path.is_sep c) |]; simpl in *; lia.
Qed.

Lemma rsplit_sep_length (s : string) :
  (String.length (fst (Path.rsplit_sep s)) + String.length (snd (Path.rsplit_sep s))
   = String.length s)%nat.
Proof.
  induction s as [| c r IH]; simpl; [reflexivity |].
  destruct (Path.rsplit_sep r) as [[| a h] t]; [destruct (Path.is_sep c) |];
    simpl in *; lia.
Qed.

Lemma split_length (p : string) :
  (String.length (fst (Path.split p)) + String.length (snd (Path.split p))
   <= String.length p)%nat.
Proof.
  unfold Path.split.
  pose proof (rsplit_sep_length p) as H.
  destruct (Path.rsplit_sep p) as [h t]; simpl in *.
  pose proof (rstrip_sep_length h).
  destruct (Path.nonempty h && Path.nonempty (Path.rstrip_sep h)); lia.
Qed.

(** The head [os.makedirs] recurses on is shorter than the path. *)
Lemma makedirs_split_shorter (name : string) :
  Path.nonempty (snd (makedirs_split name)) = true ->
  (String.length (fst (makedirs_split name)) < String.length name)%nat.
Proof.
  unfold makedirs_split.
  pose proof (split_length name) as H1.
  destruct (Path.split name) as [h t]; simpl in H1.
  destruct (Path.nonempty t) eqn:Ht; simpl.
  - intros _. destruct t; [discriminate | simpl in H1; lia].
  - pose proof (split_length h) as H2.
    destruct (Path.split h) as [h' t']; simpl in *.
    intros Ht'. destruct t'; [discriminate | simpl in H2; lia].
Qed.

Lemma bind_ext {S A B} (m1 m2 : ST S A) (k1 k2 : A -> ST S B) (s : S) :
  m1 s = m2 s -> (forall a s', k1 a s' = k2 a s') -> bind m1 k1 s = bind m2 k2 s.
Proof.
  intros Hm Hk. unfold bind. rewrite Hm.
  destruct (m2 s) as [[a | e] s']; [apply Hk | reflexivity].
Qed.

(** The fuel given by [makedirs] is never used up: any larger amount
    gives the same run. *)
Lemma makedirs_fuel_enough (env : Env) (exist_ok : bool) (n1 : nat) :
  forall n2 name m,
    (String.length name < n1)%nat -> (String.length name < n2)%nat ->
    makedirs_fuel env n1 name exist_ok m = makedirs_fuel env n2 name exist_ok m.
Proof.
  induction n1 as [| n1 IH]; intros n2 name m H1 H2; [lia |].
  destruct n2 as [| n2]; [lia |].
  cbn [makedirs_fuel].
  pose proof (makedirs_split_shorter name) as Hshort.
  destruct (makedirs_split name) as [head tail]; simpl in Hshort.
  apply bind_ext; [| reflexivity].
  destruct (Path.nonempty head && Path.nonempty tail) eqn:Hc; [| reflexivity].
  apply andb_prop in Hc. destruct Hc as [_ Ht]. specialize (Hshort Ht).
  apply bind_ext; [reflexivity |].
  intros present s'. destruct (negb present); [| reflexivity].
  apply bind_ext; [| reflexivity].
  unfold try_except. rewrite (IH n2 head s') by lia. reflexivity.
Qed.

(** [os.makedirs] is the same run for every amount of fuel above the
    length of the path. *)
Lemma makedirs_any_fuel (env : Env) (exist_ok : bool) (name : string) (m : Machine) (n : nat) :
  (String.length name < n)%nat ->
  makedirs_fuel env n name exist_ok m = makedirs env name exist_ok m.
Proof.
  intros H. unfold makedirs. apply makedirs_fuel_enough; lia.
Qed.

(** C5.  When the module has been imported without an exception, its
    workspace path is the absolute form of the fixed location [~/mcp],
    computed once by the start-up code; that path is absolute and names a
    directory that exists at the end of the start-up, hence before any
    tool can be called; and every [run_command] hands exactly that path
    to [subprocess.run] as the working directory of the child. *)
Theorem workspace_ready (env : Env) (m m' : Machine) (cfg : Config) :
  Path.isabs (getcwd env) = true ->
  startup env m = (Return cfg, m') ->
  DEFAULT_WORKSPACE cfg = abspath env (expanduser env "~/mcp") /\
  Path.isabs (DEFAULT_WORKSPACE cfg) = true /\
  lookup (fs m') (resolve (getcwd env) (DEFAULT_WORKSPACE cfg)) = Some Dir /\
  (forall os command w,
      spawned (snd (run_command os (DEFAULT_WORKSPACE cfg) command w))
      = (spawned w ++ [run_call (DEFAULT_WORKSPACE cfg) command])%list /\
      run_cwd (run_call (DEFAULT_WORKSPACE cfg) command) = DEFAULT_WORKSPACE cfg).
Proof.
  intros Hcwd H. unfold startup in H. cbv zeta in H.
  pose proof (abspath_argument_absolute env (expanduser env "~/mcp") Hcwd) as Habs.
  remember (abspath env (expanduser env "~/mcp")) as ws eqn:Hws.
  apply bind_Return in H as (u1 & m1 & _ & H).
  apply bind_Return in H as (u2 & m2 & _ & H).
  apply bind_Return in H as (u3 & m3 & _ & H).
  apply bind_Return in H as (u4 & m4 & _ & H).
  apply bind_Return in H as (u5 & m5 & Hmk & H).
  unfold ret in H. inversion H; subst cfg m5; clear H. cbn [DEFAULT_WORKSPACE].
  split; [reflexivity |]. split; [| split].
  - rewrite Hws. now apply isabs_normpath.
  - destruct u5. eapply makedirs_fuel_isdir; [| exact Hmk].
    rewrite Hws. now apply makedirs_split_normpath.
  - intros os command w. split; [| reflexivity].
    destruct (os (run_call ws command)) as [cp | e] eqn:Hos.
    + now rewrite (run_command_completed os _ command w cp Hos).
    + rewrite (run_command_raised os _ command w e Hos).
      now destruct (Py.isinstance e Py.Exception).
Qed.

Lemma workspace_ready_witness :
  Path.isabs (getcwd example_env) = true /\
  fst (startup example_env example_machine)
    = Return (mkConfig "/home/agni/mcp" "/home/agni/mcp/logs"
                       "/home/agni/mcp/logs/mcp_terminal.log") /\
  lookup (fs (snd (startup example_env example_machine))) ["home"; "agni"; "mcp"]
    = Some Dir.
Proof.
  split; [reflexivity | split; [reflexivity |]].
  exact (proj1 (proj2 (proj2
           (workspace_ready example_env example_machine
              (snd (startup example_env example_machine))
              (mkConfig "/home/agni/mcp" "/home/agni/mcp/logs"
                        "/home/agni/mcp/logs/mcp_terminal.log")
              eq_refl eq_refl)))).
Defined.

(** ** The command line *)












Lemma positional_not_marker (a : string) :
  Argparse.parse_optional a = Argparse.Positional -> String.eqb a "--" = false.
Proof.
  intros H. destruct (String.eqb a "--") eqn:E; [| reflexivity].
  apply String.eqb_eq in E. subst a. discriminate H.
Qed.


(** Both options given as separate words. *)
Lemma parse_args_host_port (h p : string) :
  Argparse.parse_optional h = Argparse.Positional ->
  Argparse.parse_optional p = Argparse.Positional ->
  Argparse.parse_args ["--host"; h; "--port"; p] =
  match Argparse.int p with
  | Some n => Argparse.Parsed {| Argparse.host := h; Argparse.port := n |}
  | None => Argparse.Exited 2
  end.
Proof.
  intros Hh Hp.
  unfold Argparse.parse_args.
  cbn [Argparse.classify].
  rewrite (positional_not_marker h Hh), (positional_not_marker p Hp), Hh, Hp.
  cbn. destruct (Argparse.int p); reflexivity.
Qed.






(** ** More on the two tools *)

(** X1.  Both tools only append to the log, and every record they append
    has level INFO or above: the DEBUG records of [run_command] (the
    working directory, the captured standard output) never reach the
    handlers under [basicConfig(level=logging.INFO)]. *)
Theorem tools_append_info_records os ws command (arguments : list (string * string)) w :
  (exists added,
      log (snd (run_command os ws command w)) = (log w ++ added)%list /\
      Forall (fun r => INFO <= levelno r) added) /\
  (exists added,
      log (snd (hello_world_tool arguments w)) = (log w ++ added)%list /\
      Forall (fun r => INFO <= levelno r) added).
Proof.
  split.
  - destruct (os (run_call ws command)) as [cp | e] eqn:Hos.
    + rewrite (run_command_completed os ws command w cp Hos); simpl.
      exists ([received command; finished (returncode cp)]
              ++ (if Py.truthy (stderr cp) then [stderr_warning (stderr cp)] else []))%list.
      split; [now rewrite <- !app_assoc |].
      destruct (Py.truthy (stderr cp)); repeat constructor; discriminate.
    + rewrite (run_command_raised os ws command w e Hos).
      destruct (Py.isinstance e Py.Exception); simpl.
      * exists [received command; failure e].
        split; [now rewrite <- app_assoc | repeat constructor; discriminate].
      * exists [received command].
        split; [reflexivity | repeat constructor; discriminate].
  - exists [mkRecord INFO "hello_world tool invoked" [] None].
    split; [reflexivity | repeat constructor; discriminate].
Qed.

(** X2.  The exact records one call of [run_command] writes: the command,
    then either the return code and, when the standard error is not empty,
    one warning with it; or the caught exception; or, for an exception
    that is not caught, nothing more. *)
Theorem run_command_log_trace os ws command w :
  log (snd (run_command os ws command w)) =
  (log w ++ received command ::
   match os (run_call ws command) with
   | Return cp =>
       finished (returncode cp) ::
       (if Py.truthy (stderr cp) then [stderr_warning (stderr cp)] else [])
   | Raise e =>
       if Py.isinstance e Py.Exception then [failure e] else []
   end)%list.
Proof.
  destruct (os (run_call ws command)) as [cp | e] eqn:Hos.
  - rewrite (run_command_completed os ws command w cp Hos); simpl.
    now rewrite <- !app_assoc.
  - rewrite (run_command_raised os ws command w e Hos).
    destruct (Py.isinstance e Py.Exception); simpl;
      [now rewrite <- app_assoc | reflexivity].
Qed.

(** X3.  The returned string does not tell where it comes from: a run
    that prints [s] on its standard output, a run that prints [s] on its
    standard error only, and a run whose launch fails with an exception
    rendering as [s] all return [s]. *)
Theorem run_command_result_hides_origin ws command w (s err : string) (rc1 rc2 : Z) e :
  s <> "" ->
  Py.isinstance e Py.Exception = true ->
  Py.str e = s ->
  fst (run_command (os_completes (mkCompleted rc1 s err)) ws command w) = Return s /\
  fst (run_command (os_completes (mkCompleted rc2 "" s)) ws command w) = Return s /\
  fst (run_command (os_raises e) ws command w) = Return s.
Proof.
  intros Hs Hinst Hstr. repeat split.
  - rewrite (run_command_completed _ ws command w (mkCompleted rc1 s err) eq_refl); simpl.
    now rewrite or_nonempty.
  - now rewrite (run_command_completed _ ws command w (mkCompleted rc2 "" s) eq_refl).
  - rewrite (run_command_raised _ ws command w e eq_refl), Hinst; simpl.
    now rewrite Hstr.
Qed.

Lemma run_command_result_hides_origin_witness :
  let s := Py.str no_workspace in
  s <> "" /\
  fst (run_command (os_completes (mkCompleted 0 s "")) example_workspace "cat msg" empty_world)
  = fst (run_command (os_raises no_workspace) example_workspace "cat msg" empty_world).
Proof.
  split; [discriminate |].
  destruct (run_command_result_hides_origin example_workspace "cat msg" empty_world
              (Py.str no_workspace) "" 0 0 no_workspace
              ltac:(discriminate) eq_refl eq_refl) as (H1 & _ & H3).
  exact (eq_trans H1 (eq_sym H3)).
Defined.


(** ** More on the start-up *)

Lemma split_sep_nonempty (s : string) : Path.split_sep s <> [].
Proof.
  induction s as [| c r IH]; simpl; [discriminate |].
  destruct (Path.is_sep c); [discriminate |].
  destruct (Path.split_sep r); discriminate.
Qed.

Lemma split_sep_component (c : string) :
  Path.has_sep c = false -> Path.split_sep c = [c].
Proof.
  induction c as [| a r IH]; simpl; [reflexivity |].
  intros H. apply orb_false_elim in H. destruct H as [Ha Hr].
  now rewrite Ha, (IH Hr).
Qed.

Lemma split_sep_append (x c : string) :
  Path.has_sep c = false ->
  Path.split_sep (x ++ "/" ++ c) = (Path.split_sep x ++ [c])%list.
Proof.
  intros Hc. induction x as [| a x IH]; simpl.
  - now rewrite (split_sep_component c Hc).
  - simpl in IH. rewrite IH.
    destruct (Path.is_sep a); [reflexivity |].
    pose proof (split_sep_nonempty x) as Hne.
    destruct (Path.split_sep x); [congruence | reflexivity].
Qed.

Lemma last_snoc {A} (l : list A) (a d : A) : last (l ++ [a]) d = a.
Proof.
  induction l as [| b l IH]; [reflexivity |].
  simpl. destruct (l ++ [a])%list eqn:E; [now destruct l | exact IH].
Qed.

(** [normpath] keeps a last component that is an ordinary name. *)
Lemma normpath_keeps_last_name (x c : string) :
  Path.isabs (x ++ "/" ++ c) = true ->
  component c -> c <> ".." ->
  exists a, Path.normpath (x ++ "/" ++ c) = a ++ "/" ++ c.
Proof.
  intros Habs (Hsep & Hnil & Hdot) Hdd.
  unfold Path.normpath.
  assert (Hne : Path.nonempty (x ++ "/" ++ c) = true)
    by (destruct x; reflexivity).
  rewrite Hne; simpl negb; cbv iota.
  rewrite (split_sep_append x c Hsep), fold_left_app.
  set (k := Path.initial_slashes (x ++ "/" ++ c)).
  set (acc := fold_left (Path.normpath_step k) (Path.split_sep x) []).
  assert (Hstep : Path.normpath_step k acc c = (acc ++ [c])%list).
  { unfold Path.normpath_step.
    apply String.eqb_neq in Hnil, Hdot, Hdd. now rewrite Hnil, Hdot, Hdd. }
  cbn [fold_left]. rewrite Hstep.
  assert (Hk : k = 1%nat \/ k = 2%nat).
  { subst k. unfold Path.initial_slashes. rewrite Habs.
    destruct (prefix "//" (x ++ "/" ++ c) && negb (prefix "///" (x ++ "/" ++ c))); auto. }
  assert (Hnonnil : (acc ++ [c])%list <> []) by (destruct acc; discriminate).
  assert (exists a, Path.slashes k ++ Path.join_sep (acc ++ [c]) = a ++ "/" ++ c) as [a Ha].
  { destruct Hk as [-> | ->].
    - destruct (join_sep_last (acc ++ [c]) Hnonnil "") as [a Ha].
      exists a. now rewrite last_snoc in Ha.
    - destruct (join_sep_last (acc ++ [c]) Hnonnil "/") as [a Ha].
      exists a. now rewrite last_snoc in Ha. }
  rewrite Ha. exists a.
  destruct a; reflexivity.
Qed.

(** What [expanduser] makes of ["~/mcp"]: the home directory without its
    trailing slashes, or the tilde itself when no home is known. *)
Lemma expanduser_mcp (env : Env) :
  exists x, expanduser env "~/mcp" = x ++ "/mcp" /\
            (forall h, environ_HOME env = Some h -> x = Path.rstrip_sep h).
Proof.
  unfold expanduser; simpl.
  destruct (environ_HOME env) as [h |].
  - exists (Path.rstrip_sep h). split.
    + destruct (Path.rstrip_sep h); reflexivity.
    + intros h' H. now inversion H.
  - destruct (pw_dir env) as [h |].
    + exists (Path.rstrip_sep h). split; [| discriminate].
      destruct (Path.rstrip_sep h); reflexivity.
    + exists "~". split; [reflexivity | discriminate].
Qed.

Lemma endswith_sep_append (a b : string) :
  b <> "" -> Path.endswith_sep (a ++ b) = Path.endswith_sep b.
Proof.
  intros Hb. induction a as [| c a IH]; [reflexivity |].
  simpl. rewrite <- IH.
  destruct (a ++ b) eqn:E; [| reflexivity].
  destruct a; [simpl in E; congruence | discriminate].
Qed.

(** The workspace path and the two paths derived from it. *)
Lemma workspace_shape (env : Env) :
  Path.isabs (getcwd env) = true ->
  exists a, abspath env (expanduser env "~/mcp") = a ++ "/mcp".
Proof.
  intros Hcwd.
  pose proof (abspath_argument_absolute env (expanduser env "~/mcp") Hcwd) as Habs.
  unfold abspath.
  destruct (expanduser_mcp env) as (x & Hx & _). rewrite Hx in *.
  assert (Hcomp : component "mcp") by (repeat split; discriminate).
  destruct (Path.isabs (x ++ "/mcp")) eqn:E.
  - apply (normpath_keeps_last_name x "mcp" E Hcomp). discriminate.
  - unfold Path.join in *. rewrite E in *.
    destruct (negb (Path.nonempty (getcwd env)) || Path.endswith_sep (getcwd env)).
    + rewrite <- append_assoc in *.
      apply (normpath_keeps_last_name _ "mcp" Habs Hcomp). discriminate.
    + change (getcwd env ++ "/" ++ x ++ "/mcp")
        with (getcwd env ++ ("/" ++ x) ++ "/mcp") in *.
      rewrite <- append_assoc in *.
      apply (normpath_keeps_last_name _ "mcp" Habs Hcomp). discriminate.
Qed.

Lemma join_after_name (a c name : string) :
  c <> "" -> Path.has_sep c = false ->
  Path.isabs name = false ->
  Path.join (a ++ "/" ++ c) name = (a ++ "/" ++ c) ++ "/" ++ name.
Proof.
  intros Hc Hsep Hrel. unfold Path.join. rewrite Hrel.
  assert (Hne : Path.nonempty (a ++ "/" ++ c) = true) by (destruct a; reflexivity).
  rewrite Hne.
  assert (Hend : Path.endswith_sep (a ++ "/" ++ c) = false).
  { rewrite <- append_assoc.
    rewrite (endswith_sep_append (a ++ "/") c Hc).
    clear Hne. induction c as [| ch r IH]; [congruence |].
    simpl in Hsep. apply orb_false_elim in Hsep. destruct Hsep as [Hch Hr].
    destruct r; [exact Hch |]. apply IH; [discriminate | exact Hr]. }
  now rewrite Hend.
Qed.

(** The three paths of a configuration the start-up returns. *)
Lemma startup_paths (env : Env) (m m' : Machine) (cfg : Config) :
  Path.isabs (getcwd env) = true ->
  startup env m = (Return cfg, m') ->
  (exists a, DEFAULT_WORKSPACE cfg = a ++ "/mcp") /\
  LOG_DIR cfg = DEFAULT_WORKSPACE cfg ++ "/logs" /\
  LOG_FILE cfg = DEFAULT_WORKSPACE cfg ++ "/logs/mcp_terminal.log".
Proof.
  intros Hcwd H. unfold startup in H. cbv zeta in H.
  destruct (workspace_shape env Hcwd) as [a Ha]. rewrite Ha in H.
  apply bind_Return in H as (u1 & m1 & _ & H).
  apply bind_Return in H as (u2 & m2 & _ & H).
  apply bind_Return in H as (u3 & m3 & _ & H).
  apply bind_Return in H as (u4 & m4 & _ & H).
  apply bind_Return in H as (u5 & m5 & _ & H).
  unfold ret in H. injection H as Hcfg _. subst cfg. cbn [DEFAULT_WORKSPACE LOG_DIR LOG_FILE].
  split; [now exists a |].
  assert (Hdir : Path.join (a ++ "/mcp") "logs" = (a ++ "/mcp") ++ "/logs").
  { apply (join_after_name a "mcp" "logs"); [discriminate | reflexivity | reflexivity]. }
  split; [exact Hdir |].
  rewrite Hdir.
  replace ((a ++ "/mcp") ++ "/logs") with ((a ++ "/mcp") ++ "/" ++ "logs") by reflexivity.
  rewrite <- (append_assoc (a ++ "/mcp") "/" "logs") at 1.
  pose proof (join_after_name ((a ++ "/mcp")) "logs" "mcp_terminal.log"
                ltac:(discriminate) eq_refl eq_refl) as Hfile.
  rewrite <- (append_assoc (a ++ "/mcp") "/" "logs") in Hfile.
  rewrite !append_assoc in *. rewrite Hfile. reflexivity.
Qed.

(** X5.  Where the server keeps its files: whatever the environment, the
    workspace is a directory named [mcp], the log directory is [logs]
    inside it, and the log file is [logs/mcp_terminal.log] inside it. *)
Theorem workspace_layout (env : Env) (m m' : Machine) (cfg : Config) :
  Path.isabs (getcwd env) = true ->
  startup env m = (Return cfg, m') ->
  (exists a, DEFAULT_WORKSPACE cfg = a ++ "/mcp") /\
  LOG_DIR cfg = DEFAULT_WORKSPACE cfg ++ "/logs" /\
  LOG_FILE cfg = DEFAULT_WORKSPACE cfg ++ "/logs/mcp_terminal.log".
Proof. exact (startup_paths env m m' cfg). Qed.

Lemma workspace_layout_witness :
  Path.isabs (getcwd example_env) = true /\
  LOG_FILE (mkConfig "/home/agni/mcp" "/home/agni/mcp/logs"
                     "/home/agni/mcp/logs/mcp_terminal.log")
  = "/home/agni/mcp" ++ "/logs/mcp_terminal.log".
Proof.
  split; [reflexivity |].
  exact (proj2 (proj2
           (workspace_layout example_env example_machine
              (snd (startup example_env example_machine))
              (mkConfig "/home/agni/mcp" "/home/agni/mcp/logs"
                        "/home/agni/mcp/logs/mcp_terminal.log")
              eq_refl eq_refl))).
Defined.

Lemma isabs_rstrip_sep_mcp (h : string) :
  Path.isabs h = true -> Path.isabs (Path.rstrip_sep h ++ "/mcp") = true.
Proof.
  destruct h as [| c h]; [discriminate |]. simpl. intros Hc.
  destruct (Path.rstrip_sep h); [rewrite Hc |]; simpl; auto.
Qed.

(** X6.  With an absolute [HOME] the three paths depend on nothing else:
    two start-ups with the same [HOME], from different working
    directories and with different password databases, compute the same
    configuration. *)
Theorem workspace_depends_on_HOME_only (env1 env2 : Env) (h : string)
  (m1 m1' m2 m2' : Machine) (cfg1 cfg2 : Config) :
  environ_HOME env1 = Some h ->
  environ_HOME env2 = Some h ->
  Path.isabs h = true ->
  startup env1 m1 = (Return cfg1, m1') ->
  startup env2 m2 = (Return cfg2, m2') ->
  cfg1 = cfg2.
Proof.
  intros H1 H2 Hh S1 S2.
  assert (Hws : forall env, environ_HOME env = Some h ->
                abspath env (expanduser env "~/mcp")
                = Path.normpath (Path.rstrip_sep h ++ "/mcp")).
  { intros env He. unfold abspath.
    destruct (expanduser_mcp env) as (x & Hx & Hhome).
    rewrite Hx, (Hhome h He), (isabs_rstrip_sep_mcp h Hh). reflexivity. }
  unfold startup in S1, S2. cbv zeta in S1, S2.
  rewrite (Hws env1 H1) in S1. rewrite (Hws env2 H2) in S2.
  apply bind_Return in S1 as (? & ? & _ & S1).
  apply bind_Return in S1 as (? & ? & _ & S1).
  apply bind_Return in S1 as (? & ? & _ & S1).
  apply bind_Return in S1 as (? & ? & _ & S1).
  apply bind_Return in S1 as (? & ? & _ & S1).
  apply bind_Return in S2 as (? & ? & _ & S2).
  apply bind_Return in S2 as (? & ? & _ & S2).
  apply bind_Return in S2 as (? & ? & _ & S2).
  apply bind_Return in S2 as (? & ? & _ & S2).
  apply bind_Return in S2 as (? & ? & _ & S2).
  unfold ret in S1, S2. congruence.
Qed.

Lemma workspace_depends_on_HOME_only_witness :
  getcwd example_env <> getcwd other_cwd_env /\
  fst (startup example_env example_machine)
  = fst (startup other_cwd_env (mkMachine [] empty_world)).
Proof.
  split; [discriminate |].
  pose proof (workspace_depends_on_HOME_only example_env other_cwd_env "/home/agni"
                example_machine (snd (startup example_env example_machine))
                (mkMachine [] empty_world)
                (snd (startup other_cwd_env (mkMachine [] empty_world)))
                (mkConfig "/home/agni/mcp" "/home/agni/mcp/logs"
                          "/home/agni/mcp/logs/mcp_terminal.log")
                (mkConfig "/home/agni/mcp" "/home/agni/mcp/logs"
                          "/home/agni/mcp/logs/mcp_terminal.log")
                eq_refl eq_refl eq_refl eq_refl eq_refl) as H.
  exact (f_equal (@Return Config) H).
Defined.

Section Respects.

Context {S : Type} (R : S -> S -> Prop).
Hypothesis R_refl : forall s, R s s.
Hypothesis R_trans : forall s1 s2 s3, R s1 s2 -> R s2 s3 -> R s1 s3.

Lemma respects_ret {A} (a : A) : respects R (ret a : ST S A).
Proof. intros s r s' H. inversion H; subst. apply R_refl. Qed.

Lemma respects_raise {A} (e : Py.exn) : respects R (raise e : ST S A).
Proof. intros s r s' H. inversion H; subst. apply R_refl. Qed.

Lemma respects_bind {A B} (c : ST S A) (k : A -> ST S B) :
  respects R c -> (forall a, respects R (k a)) -> respects R (bind c k).
Proof.
  intros Hc Hk s r s'. unfold bind.
  destruct (c s) as [[a | e] s1] eqn:E; intros H.
  - eapply R_trans; [exact (Hc _ _ _ E) | exact (Hk _ _ _ _ H)].
  - inversion H; subst. exact (Hc _ _ _ E).
Qed.

Lemma respects_try_except {A} (c : ST S A) (cls : Py.ExcClass) (h : Py.exn -> ST S A) :
  respects R c -> (forall e, respects R (h e)) -> respects R (try_except c cls h).
Proof.
  intros Hc Hh s r s'. unfold try_except.
  destruct (c s) as [[a | e] s1] eqn:E; intros H.
  - inversion H; subst. exact (Hc _ _ _ E).
  - destruct (Py.isinstance e cls).
    + eapply R_trans; [exact (Hc _ _ _ E) | exact (Hh _ _ _ _ H)].
    + inversion H; subst. exact (Hc _ _ _ E).
Qed.

End Respects.

Lemma only_adds_refl (m : Machine) : only_adds m m.
Proof. split; [intros p n H; exact H | reflexivity]. Qed.

Lemma only_adds_trans (m1 m2 m3 : Machine) :
  only_adds m1 m2 -> only_adds m2 m3 -> only_adds m1 m3.
Proof.
  intros [H1 P1] [H2 P2]. split; [| congruence].
  intros p n H. apply H2, H1, H.
Qed.

Lemma keeps_entries_refl (m : Machine) : keeps_entries m m.
Proof. intros p n H; exact H. Qed.

Lemma keeps_entries_trans (m1 m2 m3 : Machine) :
  keeps_entries m1 m2 -> keeps_entries m2 m3 -> keeps_entries m1 m3.
Proof. intros H1 H2 p n H. apply H2, H1, H. Qed.

Lemma location_eqb_eq (p q : location) : location_eqb p q = true -> p = q.
Proof.
  revert q. induction p as [| a p IH]; intros [| b q]; simpl; try discriminate;
    [reflexivity |].
  intros H. apply andb_prop in H. destruct H as [Hab Hpq].
  apply String.eqb_eq in Hab. now rewrite Hab, (IH q Hpq).
Qed.

(** A new entry at a free place hides nothing. *)
Lemma lookup_add_free (tree : FS) (p : location) (k : node) :
  lookup tree p = None ->
  forall q n, lookup tree q = Some n -> lookup ((p, k) :: tree) q = Some n.
Proof.
  intros Hfree q n Hq. destruct q as [| a q]; [exact Hq |].
  change (lookup ((p, k) :: tree) (a :: q))
    with (if location_eqb (a :: q) p then Some k else assoc tree (a :: q)).
  destruct (location_eqb (a :: q) p) eqn:E; [| exact Hq].
  apply location_eqb_eq in E. subst p. congruence.
Qed.

Lemma mkdir_only_adds (env : Env) (path : string) : respects only_adds (mkdir env path).
Proof.
  intros m r m'. unfold mkdir.
  destruct (lookup (fs m) (resolve (getcwd env) path)) as [n |] eqn:Ep.
  - intros H; inversion H; subst. apply only_adds_refl.
  - destruct (lookup (fs m) (removelast (resolve (getcwd env) path))) as [[|] |];
      intros H; inversion H; subst; try apply only_adds_refl.
    split; [| reflexivity]. intros q n Hq. now apply lookup_add_free.
Qed.

Lemma open_append_only_adds (env : Env) (path : string) :
  respects only_adds (open_append env path).
Proof.
  intros m r m'. unfold open_append.
  destruct (lookup (fs m) (resolve (getcwd env) path)) as [[|] |] eqn:Ep;
    try (intros H; inversion H; subst; apply only_adds_refl).
  destruct (lookup (fs m) (removelast (resolve (getcwd env) path))) as [[|] |];
    intros H; inversion H; subst; try apply only_adds_refl.
  split; [| reflexivity]. intros q n Hq. now apply lookup_add_free.
Qed.

Lemma path_exists_only_adds (env : Env) (path : string) :
  respects only_adds (path_exists env path).
Proof. intros m r m' H. inversion H; subst. apply only_adds_refl. Qed.

Lemma path_isdir_only_adds (env : Env) (path : string) :
  respects only_adds (path_isdir env path).
Proof. intros m r m' H. inversion H; subst. apply only_adds_refl. Qed.

(** [os.makedirs] creates directories and does nothing else. *)
Lemma makedirs_fuel_only_adds (env : Env) (exist_ok : bool) (fuel : nat) :
  forall name, respects only_adds (makedirs_fuel env fuel name exist_ok).
Proof.
  pose proof only_adds_refl as Hr. pose proof only_adds_trans as Ht.
  induction fuel as [| fuel IH]; intros name; cbn [makedirs_fuel].
  - apply (respects_raise _ Hr).
  - destruct (makedirs_split name) as [head tail].
    apply (respects_bind _ Ht).
    + destruct (Path.nonempty head && Path.nonempty tail);
        [| apply (respects_ret _ Hr)].
      apply (respects_bind _ Ht); [apply path_exists_only_adds |].
      intros present. destruct (negb present); [| apply (respects_ret _ Hr)].
      apply (respects_bind _ Ht); [| intros; apply (respects_ret _ Hr)].
      apply (respects_try_except _ Ht); [apply IH |].
      intros; apply (respects_ret _ Hr).
    + intros done. destruct done; [apply (respects_ret _ Hr) |].
      apply (respects_try_except _ Ht); [apply mkdir_only_adds |].
      intros e. apply (respects_bind _ Ht); [apply path_isdir_only_adds |].
      intros isdir. destruct (negb exist_ok || negb isdir);
        [apply (respects_raise _ Hr) | apply (respects_ret _ Hr)].
Qed.

Lemma only_adds_keeps_entries {A} (c : Boot A) :
  respects only_adds c -> respects keeps_entries c.
Proof. intros H m r m' E. exact (proj1 (H m r m' E)). Qed.

Lemma lift_keeps_entries {A} (c : M A) : respects keeps_entries (lift c).
Proof.
  intros m r m'. unfold lift. destruct (c (proc m)) as [r1 w].
  intros H; inversion H; subst. intros p n Hp. exact Hp.
Qed.

(** X7.  The start-up never removes or replaces anything: whatever was
    in the directory tree before is there afterwards, with the same kind,
    whether the start-up finishes or raises. *)
Theorem startup_keeps_entries (env : Env) (m m' : Machine) (r : outcome Config) :
  startup env m = (r, m') ->
  forall p n, lookup (fs m) p = Some n -> lookup (fs m') p = Some n.
Proof.
  pose proof keeps_entries_refl as Hr. pose proof keeps_entries_trans as Ht.
  revert m r m'. change (respects keeps_entries (startup env)).
  unfold startup.
  apply (respects_bind _ Ht);
    [apply only_adds_keeps_entries, makedirs_fuel_only_adds | intros _].
  apply (respects_bind _ Ht);
    [apply only_adds_keeps_entries, open_append_only_adds | intros _].
  apply (respects_bind _ Ht); [apply lift_keeps_entries | intros _].
  apply (respects_bind _ Ht); [apply lift_keeps_entries | intros _].
  apply (respects_bind _ Ht);
    [apply only_adds_keeps_entries, makedirs_fuel_only_adds | intros _].
  apply (respects_ret _ Hr).
Qed.

Lemma startup_keeps_entries_witness :
  lookup (fs machine_with_file) ["home"; "agni"; "mcp"] = Some File /\
  lookup (fs (snd (startup example_env machine_with_file))) ["home"; "agni"; "mcp"]
  = Some File.
Proof.
  split; [reflexivity |].
  exact (startup_keeps_entries example_env machine_with_file
           (snd (startup example_env machine_with_file))
           (fst (startup example_env machine_with_file))
           eq_refl ["home"; "agni"; "mcp"] File eq_refl).
Defined.

Lemma open_append_outcome (env : Env) (path : string) (m m' : Machine) :
  open_append env path m = (Return tt, m') ->
  lookup (fs m') (resolve (getcwd env) path) = Some File.
Proof.
  unfold open_append.
  destruct (lookup (fs m) (resolve (getcwd env) path)) as [[|] |] eqn:Ep;
    try discriminate.
  - intros H; inversion H; subst. exact Ep.
  - destruct (lookup (fs m) (removelast (resolve (getcwd env) path))) as [[|] |];
      try discriminate.
    intros H; inversion H; subst; cbn [fs].
    destruct (resolve (getcwd env) path) as [| a q]; [discriminate Ep |].
    unfold lookup, assoc. now rewrite location_eqb_refl.
Qed.

Lemma lift_logger_info (fmt : string) (a : list arg) (m m' : Machine) (r : outcome unit) :
  lift (logger_info fmt a) m = (r, m') ->
  r = Return tt /\ fs m' = fs m /\
  proc m' = mkWorld (log (proc m) ++ [mkRecord INFO fmt a None]) (spawned (proc m)).
Proof.
  unfold lift, logger_info, emit; simpl. intros H; inversion H; subst. auto.
Qed.

Lemma makedirs_split_name (x c : string) :
  Path.has_sep c = false -> c <> "" ->
  snd (makedirs_split (x ++ "/" ++ c)) = c.
Proof.
  intros Hsep Hc. unfold makedirs_split, Path.split.
  rewrite (rsplit_sep_append x c Hsep).
  destruct c; [congruence | reflexivity].
Qed.

(** X8.  After a start-up that finished, the log directory exists as a
    directory and the log file as a regular file. *)
Theorem startup_creates_log_file (env : Env) (m m' : Machine) (cfg : Config) :
  Path.isabs (getcwd env) = true ->
  startup env m = (Return cfg, m') ->
  lookup (fs m') (resolve (getcwd env) (LOG_DIR cfg)) = Some Dir /\
  lookup (fs m') (resolve (getcwd env) (LOG_FILE cfg)) = Some File.
Proof.
  intros Hcwd H.
  destruct (startup_paths env m m' cfg Hcwd H) as ((a & Hws) & Hdir & Hfile).
  unfold startup in H. cbv zeta in H.
  apply bind_Return in H as ([] & m1 & H1 & H).
  apply bind_Return in H as ([] & m2 & H2 & H).
  apply bind_Return in H as (u3 & m3 & H3 & H).
  apply bind_Return in H as (u4 & m4 & H4 & H).
  apply bind_Return in H as (u5 & m5 & H5 & H).
  unfold ret in H. injection H as Hcfg Hm. subst m5.
  assert (Hcfg_dir : LOG_DIR cfg = Path.join (abspath env (expanduser env "~/mcp")) "logs")
    by (now subst cfg).
  assert (Hcfg_file :
            LOG_FILE cfg = Path.join (Path.join (abspath env (expanduser env "~/mcp")) "logs")
                             "mcp_terminal.log") by (now subst cfg).
  rewrite <- Hcfg_dir in H1. rewrite <- Hcfg_file in H2.
  apply lift_logger_info in H3 as (_ & F3 & _).
  apply lift_logger_info in H4 as (_ & F4 & _).
  pose proof (makedirs_fuel_only_adds env true _ _ _ _ _ H5) as [K5 _].
  pose proof (open_append_only_adds env _ _ _ _ H2) as [K2 _].
  assert (Hd1 : lookup (fs m1) (resolve (getcwd env) (LOG_DIR cfg)) = Some Dir).
  { eapply makedirs_fuel_isdir; [| exact H1].
    rewrite Hdir, Hws.
    change ((a ++ "/mcp") ++ "/logs") with ((a ++ "/mcp") ++ "/" ++ "logs").
    rewrite (makedirs_split_name (a ++ "/mcp") "logs" eq_refl); discriminate. }
  split.
  - apply K5. rewrite F4, F3. apply K2, Hd1.
  - apply K5. rewrite F4, F3. exact (open_append_outcome env _ m1 m2 H2).
Qed.

Lemma startup_creates_log_file_witness :
  Path.isabs (getcwd example_env) = true /\
  lookup (fs (snd (startup example_env example_machine)))
         ["home"; "agni"; "mcp"; "logs"; "mcp_terminal.log"] = Some File.
Proof.
  split; [reflexivity |].
  exact (proj2 (startup_creates_log_file example_env example_machine
                  (snd (startup example_env example_machine))
                  (mkConfig "/home/agni/mcp" "/home/agni/mcp/logs"
                            "/home/agni/mcp/logs/mcp_terminal.log")
                  eq_refl eq_refl)).
Defined.

(** X9.  A start-up that finished has written exactly two records, both
    at level INFO, the second one carrying the workspace path, and has
    started no process. *)
Theorem startup_log_trace (env : Env) (m m' : Machine) (cfg : Config) :
  startup env m = (Return cfg, m') ->
  log (proc m') = (log (proc m) ++ [starting; workspace_set (DEFAULT_WORKSPACE cfg)])%list /\
  spawned (proc m') = spawned (proc m).
Proof.
  intros H. unfold startup in H. cbv zeta in H.
  apply bind_Return in H as (u1 & m1 & H1 & H).
  apply bind_Return in H as (u2 & m2 & H2 & H).
  apply bind_Return in H as (u3 & m3 & H3 & H).
  apply bind_Return in H as (u4 & m4 & H4 & H).
  apply bind_Return in H as (u5 & m5 & H5 & H).
  unfold ret in H. injection H as Hcfg Hm. subst m5.
  assert (Hws : DEFAULT_WORKSPACE cfg = abspath env (expanduser env "~/mcp"))
    by (now subst cfg).
  rewrite <- Hws in H4.
  pose proof (makedirs_fuel_only_adds env true _ _ _ _ _ H1) as [_ P1].
  pose proof (open_append_only_adds env _ _ _ _ H2) as [_ P2].
  apply lift_logger_info in H3 as (_ & _ & P3).
  apply lift_logger_info in H4 as (_ & _ & P4).
  pose proof (makedirs_fuel_only_adds env true _ _ _ _ _ H5) as [_ P5].
  rewrite P5, P4, P3, P2, P1; simpl.
  now rewrite <- app_assoc.
Qed.

Lemma startup_log_trace_witness :
  log (proc (snd (startup example_env example_machine)))
  = [starting; workspace_set "/home/agni/mcp"].
Proof.
  exact (proj1 (startup_log_trace example_env example_machine
                  (snd (startup example_env example_machine))
                  (mkConfig "/home/agni/mcp" "/home/agni/mcp/logs"
                            "/home/agni/mcp/logs/mcp_terminal.log")
                  eq_refl)).
Defined.







(** ** More on the command line *)

(** Once an argument has been left over, the parser cannot succeed. *)
Lemma consume_leftover (n : nat) :
  forall ts ns ns', (length ts <= n)%nat ->
                    Argparse.consume ts ns true <> Argparse.Parsed ns'.
Proof.
  induction n as [| n IH]; intros ts ns ns' Hlen.
  - destruct ts; [discriminate | simpl in Hlen; lia].
  - destruct ts as [| [t a] rest]; [discriminate |].
    simpl in Hlen.
    destruct t as [| | d o e |]; cbn [Argparse.consume];
      try discriminate; try (apply IH; lia).
    destruct d as [[| |] |]; [| | | apply IH; lia].
    + destruct e as [e |]; [| discriminate].
      destruct (Argparse.single_dash o && Py.truthy e && Argparse.all_h e); discriminate.
    + destruct e as [e |].
      * destruct (Argparse.store Argparse.Host e ns); [apply IH; lia | discriminate].
      * destruct rest as [| [[| | | ] v] rest']; try discriminate.
        destruct (Argparse.store Argparse.Host v ns); [| discriminate].
        apply IH. simpl in Hlen. lia.
    + destruct e as [e |].
      * destruct (Argparse.store Argparse.Port e ns); [apply IH; lia | discriminate].
      * destruct rest as [| [[| | | ] v] rest']; try discriminate.
        destruct (Argparse.store Argparse.Port v ns); [| discriminate].
        apply IH. simpl in Hlen. lia.
Qed.

(** X11.  The server takes no positional argument: a command line whose
    first word is a plain value, the marker [--] or an option the parser
    does not know never starts the server, whatever follows. *)
Theorem main_rejects_stray_first_word (a : string) (rest : list string) :
  a = "--" \/ Argparse.parse_optional a = Argparse.Positional \/
  (exists o, Argparse.parse_optional a = Argparse.Optional None o None) ->
  main (a :: rest) = None.
Proof.
  intros Ha. unfold main.
  destruct (Argparse.parse_args (a :: rest)) as [ns |] eqn:E; [| reflexivity].
  exfalso. unfold Argparse.parse_args in E.
  destruct (existsb Argparse.is_ambiguous (Argparse.classify false (a :: rest)));
    [discriminate |].
  cbn [Argparse.classify] in E.
  destruct Ha as [-> | [Ha | [o Ha]]].
  - cbn in E. exact (consume_leftover _ _ _ _ (le_n _) E).
  - rewrite (positional_not_marker a Ha), Ha in E. cbn [Argparse.consume] in E.
    exact (consume_leftover _ _ _ _ (le_n _) E).
  - destruct (String.eqb a "--") eqn:Em.
    + cbn [Argparse.consume] in E. exact (consume_leftover _ _ _ _ (le_n _) E).
    + rewrite Ha in E. cbn [Argparse.consume] in E.
      exact (consume_leftover _ _ _ _ (le_n _) E).
Qed.

Lemma main_rejects_stray_first_word_witness :
  Argparse.parse_optional "start" = Argparse.Positional /\
  main ["start"; "--port"; "9000"] = None.
Proof.
  split; [reflexivity |].
  exact (main_rejects_stray_first_word "start" ["--port"; "9000"]
           (or_intror (or_introl eq_refl))).
Defined.




(** X13.  The options can come in either order, and an option given
    twice takes its last value. *)
Theorem parse_args_order_and_repetition (h h' p : string) :
  Argparse.parse_optional h = Argparse.Positional ->
  Argparse.parse_optional h' = Argparse.Positional ->
  Argparse.parse_optional p = Argparse.Positional ->
  Argparse.parse_args ["--port"; p; "--host"; h]
    = Argparse.parse_args ["--host"; h; "--port"; p] /\
  Argparse.parse_args ["--host"; h; "--host"; h']
    = Argparse.Parsed {| Argparse.host := h'; Argparse.port := 8081 |}.
Proof.
  intros Hh Hh' Hp.
  rewrite (parse_args_host_port h p Hh Hp).
  unfold Argparse.parse_args. cbn [Argparse.classify].
  rewrite (positional_not_marker h Hh), (positional_not_marker h' Hh'),
    (positional_not_marker p Hp), Hh, Hh', Hp.
  cbn. split; [| reflexivity].
  destruct (Argparse.int p); reflexivity.
Qed.

Lemma parse_args_order_and_repetition_witness :
  Argparse.parse_optional "127.0.0.1" = Argparse.Positional /\
  Argparse.parse_optional "localhost" = Argparse.Positional /\
  Argparse.parse_args ["--host"; "127.0.0.1"; "--host"; "localhost"]
    = Argparse.Parsed {| Argparse.host := "localhost"; Argparse.port := 8081 |}.
Proof.
  split; [reflexivity | split; [reflexivity |]].
  exact (proj2 (parse_args_order_and_repetition "127.0.0.1" "localhost" "9000"
                  eq_refl eq_refl eq_refl)).
Defined.

(** X14.  Option names can be abbreviated as long as the abbreviation
    names one option: [--ho] and [--hos] mean [--host], [--p], [--po] and
    [--por] mean [--port]; [--h], which could also be [--help], stops the
    program with exit status 2 wherever it stands first. *)
Theorem parse_args_abbreviations (v : string) (rest : list string) :
  Argparse.parse_optional v = Argparse.Positional ->
  Argparse.parse_args ["--ho"; v] = Argparse.parse_args ["--host"; v] /\
  Argparse.parse_args ["--hos"; v] = Argparse.parse_args ["--host"; v] /\
  Argparse.parse_args ["--p"; v] = Argparse.parse_args ["--port"; v] /\
  Argparse.parse_args ["--po"; v] = Argparse.parse_args ["--port"; v] /\
  Argparse.parse_args ["--por"; v] = Argparse.parse_args ["--port"; v] /\
  Argparse.parse_args ("--h" :: rest) = Argparse.Exited 2.
Proof.
  intros Hv. unfold Argparse.parse_args. cbn [Argparse.classify].
  rewrite (positional_not_marker v Hv), Hv.
  repeat split; reflexivity.
Qed.

Lemma parse_args_abbreviations_witness :
  Argparse.parse_optional "9000" = Argparse.Positional /\
  Argparse.parse_args ["--p"; "9000"]
    = Argparse.Parsed {| Argparse.host := "0.0.0.0"; Argparse.port := 9000 |}.
Proof.
  split; [reflexivity |].
  exact (proj1 (proj2 (proj2 (parse_args_abbreviations "9000" [] eq_refl)))).
Defined.

(** X15.  [-h] or [--help] as the first word prints the help and stops
    the program with exit status 0 before anything else is looked at,
    unless a later word is an ambiguous abbreviation, which is reported
    first. *)
Theorem parse_args_help_first (rest : list string) :
  existsb Argparse.is_ambiguous (Argparse.classify false rest) = false ->
  Argparse.parse_args ("--help" :: rest) = Argparse.Exited 0 /\
  Argparse.parse_args ("-h" :: rest) = Argparse.Exited 0.
Proof.
  intros Hrest. unfold Argparse.parse_args. cbn [Argparse.classify].
  change (String.eqb "--help" "--") with false.
  change (String.eqb "-h" "--") with false.
  cbv iota. cbn [existsb]. rewrite Hrest.
  split; reflexivity.
Qed.

Lemma parse_args_help_first_witness :
  existsb Argparse.is_ambiguous (Argparse.classify false ["--port"; "http"; "stray"]) = false /\
  Argparse.parse_args ["--help"; "--port"; "http"; "stray"] = Argparse.Exited 0.
Proof.
  split; [reflexivity |].
  exact (proj1 (parse_args_help_first ["--port"; "http"; "stray"] eq_refl)).
Defined.
